(** * GameJS: Helper.js

    A shallow embedding of [Helper.js] (Canvas, Animate, InputHandler,
    AABBIntersect, Sprite, FPSCounter) and properties of it: those that the
    specification states (C1 to C10) and further ones that the code shows
    (X1 to X26).

    Conventions of the embedding:
    - a JavaScript value is a [JS.value]; reading a property that an object
      does not have yields [Undefined], and a condition tests [JS.truthy];
    - an object used as a map ([down], [pressed], a sprite) is a [gmap]
      from its property keys to values; key codes are integers, so their
      property names (the decimal strings) are in bijection with [Z] and
      none of them is inherited from [Object.prototype];
    - numbers that the code counts or compares (frame counts, millisecond
      time stamps, pixel coordinates) are integers well below 2^53, where
      the arithmetic of JavaScript numbers is exact; they are modelled as [Z];
    - every method takes the receiver's state and returns the new state,
      together with the returned value when it has one. *)

From Stdlib Require Import ZArith Bool List Lia.
From stdpp Require Import gmap strings list fin_maps.
From stdpp Require Import pretty.
Import ListNotations.

Local Open Scope Z_scope.

(* ===================================================================== *)
(** ** JavaScript values *)
(* ===================================================================== *)

Module JS.

Inductive value : Type :=
| Undefined
| Bool (b : bool)
| Num (n : Z)
| Ref (id : positive).   (* an opaque host object: an image, a context *)

#[global] Instance value_eq_dec : EqDecision value.
Proof. solve_decision. Defined.

(** ToBoolean, on the values above. *)
Definition truthy (v : value) : bool :=
  match v with
  | Undefined => false
  | Bool b => b
  | Num n => negb (n =? 0)
  | Ref _ => true
  end.

(** [o[k]]: the own property, or [undefined]. *)
Definition get `{Countable K} (o : gmap K value) (k : K) : value :=
  default Undefined (o !! k).

(** [o[k] = v]. *)
Definition set `{Countable K} (o : gmap K value) (k : K) (v : value)
  : gmap K value := <[k := v]> o.

(** [delete o[k]]. *)
Definition del `{Countable K} (o : gmap K value) (k : K) : gmap K value :=
  delete k o.

End JS.

(* ===================================================================== *)
(** ** InputHandler *)
(* ===================================================================== *)

Module Input.
Import JS.

(** [this.down], [this.pressed]. *)
Record InputHandler : Type := mkInput {
  down : gmap Z value;
  pressed : gmap Z value
}.

(** The constructor: two empty objects (the two listeners it installs are
    [keydown] and [keyup] below, run by the host on each event). *)
Definition new : InputHandler := {| down := ∅; pressed := ∅ |}.

(** The "keydown" listener: [_this.down[evt.keyCode] = true]. *)
Definition keydown (keyCode : Z) (h : InputHandler) : InputHandler :=
  {| down := set (down h) keyCode (Bool true); pressed := pressed h |}.

(** The "keyup" listener: deletes the key from both objects. *)
Definition keyup (keyCode : Z) (h : InputHandler) : InputHandler :=
  {| down := del (down h) keyCode; pressed := del (pressed h) keyCode |}.

(** [isDown]: [return this.down[code]]. *)
Definition isDown (code : Z) (h : InputHandler) : value :=
  get (down h) code.

(** [isPressed]. *)
Definition isPressed (code : Z) (h : InputHandler) : value * InputHandler :=
  if truthy (get (pressed h) code) then (Bool false, h)
  else if truthy (get (down h) code) then
    let h' := {| down := down h;
                 pressed := set (pressed h) code (Bool true) |} in
    (get (pressed h') code, h')
  else (Bool false, h).

(** What happens to a handler: the host delivers a key event, or the game
    queries it. *)
Inductive action : Type :=
| KeyDown (k : Z)
| KeyUp (k : Z)
| IsDown (k : Z)
| IsPressed (k : Z).

#[global] Instance action_eq_dec : EqDecision action.
Proof. solve_decision. Defined.

(** One action: the new state, and the value returned to the game when the
    action is a query. *)
Definition step (a : action) (h : InputHandler) : option value * InputHandler :=
  match a with
  | KeyDown k => (None, keydown k h)
  | KeyUp k => (None, keyup k h)
  | IsDown k => (Some (isDown k h), h)
  | IsPressed k => let '(v, h') := isPressed k h in (Some v, h')
  end.

(** The state after a sequence of actions. *)
Definition run (acts : list action) (h : InputHandler) : InputHandler :=
  fold_left (fun h a => snd (step a h)) acts h.

(** The values returned by the [isPressed(k)] calls of a sequence of
    actions, in order. *)
Fixpoint polls (k : Z) (acts : list action) (h : InputHandler) : list value :=
  match acts with
  | [] => []
  | a :: acts' =>
      let '(r, h') := step a h in
      (if decide (a = IsPressed k) then option_list r else []) ++ polls k acts' h'
  end.

(** The states the handler can be in. *)
Inductive reachable : InputHandler → Prop :=
| reach_new : reachable new
| reach_step a h : reachable h → reachable (snd (step a h)).

(** [a] is a key event for [k]. *)
Definition key_event (k : Z) (a : action) : bool :=
  match a with
  | KeyDown k' | KeyUp k' => bool_decide (k' = k)
  | _ => false
  end.

Definition is_keyup (k : Z) (a : action) : bool :=
  match a with
  | KeyUp k' => bool_decide (k' = k)
  | _ => false
  end.

Definition is_keydown (k : Z) (a : action) : bool :=
  match a with
  | KeyDown k' => bool_decide (k' = k)
  | _ => false
  end.

(** No action of the sequence is a key-down event for [k]. *)
Definition never_down (k : Z) (acts : list action) : bool :=
  forallb (fun a => negb (is_keydown k a)) acts.

(** No action of the sequence is a key event for [k]. *)
Definition quiet (k : Z) (acts : list action) : bool :=
  forallb (fun a => negb (key_event k a)) acts.

(** No action of the sequence is the query [isPressed(k)]. *)
Definition unpolled (k : Z) (acts : list action) : bool :=
  forallb (fun a => negb (bool_decide (a = IsPressed k))) acts.

(** No action of the sequence is a key-up event for [k]. *)
Definition held (k : Z) (acts : list action) : bool :=
  forallb (fun a => negb (is_keyup k a)) acts.

End Input.


(* ===================================================================== *)
(** ** AABBIntersect *)
(* ===================================================================== *)

Module Collision.

(** The two operations [AABBIntersect] applies to the fields of its
    arguments: [+] and [<]. *)
Class Number (num : Type) : Type := {
  add : num → num → num;
  lt : num → num → bool
}.

(** Integer coordinates. JavaScript numbers are IEEE doubles; on integers of
    magnitude at most 2^52 every sum that [AABBIntersect] forms is at most
    2^53 in magnitude, hence exact, and [<] is the order of the integers.
    This instance is the code on such arguments only ([Grid.in_range]). *)
#[global] Instance Z_Number : Number Z := {| add := Z.add; lt := Z.ltb |}.

(** The fields [AABBIntersect] reads from each argument. *)
Record Rect (num : Type) : Type := mkRect { x : num; y : num; w : num; h : num }.
Arguments mkRect {num} _ _ _ _.
Arguments x {num} _.
Arguments y {num} _.
Arguments w {num} _.
Arguments h {num} _.

Definition AABBIntersect `{Number num} (a b : Rect num) : bool :=
  lt (x a) (add (x b) (w b)) && lt (x b) (add (x a) (w a))
  && lt (y a) (add (y b) (h b)) && lt (y b) (add (y a) (h a)).

End Collision.

(* ===================================================================== *)
(** ** Canvas and Sprite *)
(* ===================================================================== *)

Module Draw.
Import JS.
Local Open Scope string_scope.

(** A call on the 2D context, with its arguments. The context is modelled
    by the sequence of calls made on it. *)
Inductive ctx_call : Type :=
| Save
| Restore
| SetFillStyle (color : string)
| FillRect (x y w h : value)
| ClearRect (x y w h : value)
| DrawImage (img sx sy sw sh dx dy dw dh : value).

Record Canvas : Type := mkCanvas {
  width : value;
  height : value;
  ctx : list ctx_call
}.

(** [new Canvas(width, height)], on a fresh context. *)
Definition new (width height : value) : Canvas :=
  {| width := width; height := height; ctx := [] |}.

Definition call (c : ctx_call) (cv : Canvas) : Canvas :=
  {| width := width cv; height := height cv; ctx := ctx cv ++ [c] |}.

Definition drawBackground (color : string) (cv : Canvas) : Canvas :=
  call Restore
    (call (FillRect (Num 0) (Num 0) (width cv) (height cv))
       (call (SetFillStyle color) (call Save cv))).

Definition clearCanvas (cv : Canvas) : Canvas :=
  call (ClearRect (Num 0) (Num 0) (width cv) (height cv)) cv.

(** [new Sprite(img, x, y, w, h)]: the object with the five properties the
    constructor assigns. *)
Definition Sprite (img x y w h : value) : gmap string value :=
  set (set (set (set (set ∅ "img" img) "x" x) "y" y) "width" w) "height" h.

(** [Canvas.prototype.drawSprite]. *)
Definition drawSprite (sprite : gmap string value) (x y : value) (cv : Canvas)
  : Canvas :=
  call (DrawImage (get sprite "img") (get sprite "x") (get sprite "y")
          (get sprite "w") (get sprite "h") x y
          (get sprite "w") (get sprite "h")) cv.

(** [Sprite.prototype.draw], on the calls made so far on [ctx]. *)
Definition draw (this : gmap string value) (x y : value)
  (ctx : list ctx_call) : list ctx_call :=
  ctx ++ [DrawImage (get this "img") (get this "x") (get this "y")
            (get this "w") (get this "h") x y
            (get this "w") (get this "h")].

End Draw.

(* ===================================================================== *)
(** ** FPSCounter *)
(* ===================================================================== *)

Module FPS.

Record FPSCounter : Type := mkFPS {
  current : Z;
  last : Z;
  lastUpdated : Z;
  ctx : JS.value
}.

(** [new FPSCounter(ctx)], when [Date.now()] reads [now]. *)
Definition new (now : Z) (ctx : JS.value) : FPSCounter :=
  {| current := 0; last := 0; lastUpdated := now; ctx := ctx |}.

(** [update]: [now1] is what [Date.now()] reads in the condition, [now2]
    what it reads inside the branch. *)
Definition update (now1 now2 : Z) (f : FPSCounter) : FPSCounter :=
  let f1 := {| current := current f + 1; last := last f;
               lastUpdated := lastUpdated f; ctx := ctx f |} in
  if 1000 <=? now1 - lastUpdated f1 then
    {| current := 0; last := current f1; lastUpdated := now2; ctx := ctx f1 |}
  else f1.

(** A sequence of [update] calls, each with its two clock readings. *)
Definition updates (clock : list (Z * Z)) (f : FPSCounter) : FPSCounter :=
  fold_left (fun f t => update (fst t) (snd t) f) clock f.

(** Every call of the sequence reads a clock less than 1000ms after [t0]. *)
Definition within_first_second (t0 : Z) (clock : list (Z * Z)) : Prop :=
  Forall (fun t => fst t - t0 < 1000) clock.

End FPS.

(* ===================================================================== *)
(** ** Animate *)
(* ===================================================================== *)

Module Loop.

(** Which of the five scheduling functions the host's [window] defines. All
    of them register one callback for the next frame. *)
Record Window : Type := mkWindow {
  requestAnimationFrame : bool;
  webkitRequestAnimationFrame : bool;
  mozRequestAnimationFrame : bool;
  oRequestAnimationFrame : bool;
  msRequestAnimationFrame : bool
}.

(** The callbacks this library hands to the host: the closure [run]. *)
Inductive callback : Type := Run.

Section Driver.

(** The state the game's [loop] works on, and [loop] itself. *)
Variable G : Type.
Variable loop : G → G.

Record World : Type := mkWorld {
  window : Window;
  queue : list callback;      (* registered for the next frame *)
  game : G
}.

Inductive outcome : Type :=
| Returned (w : World)
| TypeError (w : World).     (* calling [undefined]; the state at the throw *)

Definition state (o : outcome) : World :=
  match o with Returned w | TypeError w => w end.

(** [raf]: is the value of the [||] chain a function? *)
Definition raf (win : Window) : bool :=
  requestAnimationFrame win || webkitRequestAnimationFrame win
  || mozRequestAnimationFrame win || oRequestAnimationFrame win
  || msRequestAnimationFrame win.

(** [run]: [loop(); raf(run, canvas);] *)
Definition run (w : World) : outcome :=
  let w1 := {| window := window w; queue := queue w; game := loop (game w) |} in
  if raf (window w1) then
    Returned {| window := window w1; queue := queue w1 ++ [Run]; game := game w1 |}
  else TypeError w1.

(** [Animate(loop, canvas)]: defines [raf] and [run], then calls [run()]. *)
Definition Animate (w : World) : outcome := run w.

(** The host invokes a callback; an exception it throws is reported and the
    frame goes on. *)
Definition invoke (cb : callback) (w : World) : World :=
  match cb with Run => state (run w) end.

(** One frame of the host: the callbacks registered so far are taken off the
    queue and invoked in order; what they register is for the next frame. *)
Definition frame (w : World) : World :=
  fold_left (fun w cb => invoke cb w) (queue w)
    {| window := window w; queue := []; game := game w |}.

(** The first tick of the driver is the call of [Animate], each later one a
    frame of the host. *)
Definition ticks (m : nat) (w : World) : World :=
  match m with
  | O => w
  | S n => Nat.iter n frame (state (Animate w))
  end.

End Driver.

Arguments mkWorld {G} _ _ _.
Arguments window {G} _.
Arguments queue {G} _.
Arguments game {G} _.
Arguments Returned {G} _.
Arguments TypeError {G} _.
Arguments state {G} _.
Arguments run {G} _ _.
Arguments Animate {G} _ _.
Arguments invoke {G} _ _ _.
Arguments frame {G} _ _.
Arguments ticks {G} _ _ _.

(** The callback of the specification's test: it increments a counter. *)
Definition increment (counter : Z) : Z := counter + 1.

End Loop.

(* ===================================================================== *)
(** ** Counting what a run of the InputHandler reports *)
(* ===================================================================== *)

Module Tally.
Import JS Input.

(** How many of the returned values are [true]. *)
Definition reported (vs : list value) : nat :=
  count_occ value_eq_dec vs (Bool true).

(** How many key-down events for [k] the host delivers. *)
Definition downs (k : Z) (acts : list action) : nat :=
  count_occ action_eq_dec acts (KeyDown k).

(** [k] is down and its press has not been reported yet. *)
Definition armed (k : Z) (h : InputHandler) : bool :=
  truthy (get (down h) k) && negb (truthy (get (pressed h) k)).

End Tally.

(* ===================================================================== *)
(** ** Rectangles on the pixel grid *)
(* ===================================================================== *)

Module Grid.
Import Collision.

(** The pixel [(px, py)] lies in the rectangle: its left and top edges are
    included, its right and bottom edges are not. *)
Definition covers (r : Rect Z) (px py : Z) : Prop :=
  x r ≤ px < x r + w r ∧ y r ≤ py < y r + h r.

(** The rectangle moved by [(dx, dy)]. *)
Definition translate (dx dy : Z) (r : Rect Z) : Rect Z :=
  {| x := x r + dx; y := y r + dy; w := w r; h := h r |}.

(** An integer that a double holds and that can be added to another such
    integer without rounding. *)
Definition small (v : Z) : Prop := Z.abs v ≤ 2 ^ 52.

(** The rectangles on which [Z_Number] is the arithmetic of the code: the
    four fields are integers of magnitude at most 2^52. *)
Definition in_range (r : Rect Z) : Prop :=
  small (x r) ∧ small (y r) ∧ small (w r) ∧ small (h r).

(** [z] is a zero of the numbers: adding it to a number changes no
    comparison with that number. On the integers this is [z = 0]; on doubles
    [z] is [+0] or [-0]. *)
Definition is_zero `{Number num} (z : num) : Prop :=
  ∀ u v, lt u (add v z) = lt u v.

End Grid.

(* ===================================================================== *)
(** ** FPSCounter.prototype.draw *)
(* ===================================================================== *)

Module Hud.
Import JS.
Local Open Scope string_scope.

(** The calls on the 2D context: those of [Canvas], and the ones that
    drawing text adds. *)
Inductive call : Type :=
| Canvas (c : Draw.ctx_call)
| SetFont (font : string)
| SetTextBaseline (baseline : string)
| FillText (text : string) (x y : value)
| Fill.

(** [this.last + "fps"]: the decimal numeral of the integer, then "fps". *)
Definition label (last : Z) : string := pretty last +:+ "fps".

(** [FPSCounter.prototype.draw], on the calls made so far on [this.ctx]. *)
Definition draw (f : FPS.FPSCounter) (log : list call) : list call :=
  (log ++ [Canvas Draw.Save;
           SetFont "12pt Arial";
           Canvas (Draw.SetFillStyle "#fff");
           SetTextBaseline "top";
           FillText (label (FPS.last f)) (Num 5) (Num 5);
           Fill;
           Canvas Draw.Restore])%list.

(** A steady frame rate: [n] calls of [update], the [i]-th of them [i * d]
    milliseconds after [t0]. *)
Definition steady (t0 d : Z) (n : nat) : list (Z * Z) :=
  map (λ i, (t0 + d * Z.of_nat i, t0 + d * Z.of_nat i)) (seq 1 n).

End Hud.

(* ===================================================================== *)
(** ** The host's 2D context *)
(* ===================================================================== *)

Module Host2D.
Import Hud.

Section Context2D.

(** What [save] and [restore] act on is the drawing state (fill style, font,
    text baseline, ...); the rest of the context (the bitmap, the current
    path) is outside it. How the host carries out the other calls is left
    open: [restyle] is what a call does to the drawing state, [paint] what
    it does to the rest. *)
Variable style : Type.
Variable surface : Type.
Variable restyle : call → style → style.
Variable paint : call → style → surface → surface.

Record context : Type := mkContext {
  drawing : style;
  saved : list style;       (* the stack of [save] *)
  painted : surface
}.

(** One call: [save] pushes a copy of the drawing state, [restore] pops the
    last one pushed and does nothing on an empty stack. *)
Definition exec (s : context) (c : call) : context :=
  match c with
  | Canvas Draw.Save =>
      {| drawing := drawing s; saved := drawing s :: saved s;
         painted := painted s |}
  | Canvas Draw.Restore =>
      match saved s with
      | [] => s
      | d :: rest => {| drawing := d; saved := rest; painted := painted s |}
      end
  | _ =>
      {| drawing := restyle c (drawing s); saved := saved s;
         painted := paint c (drawing s) (painted s) |}
  end.

Definition execs (cs : list call) (s : context) : context :=
  fold_left exec cs s.

End Context2D.

Arguments mkContext {style surface} _ _ _.
Arguments drawing {style surface} _.
Arguments saved {style surface} _.
Arguments painted {style surface} _.
Arguments exec {style surface} _ _ _ _.
Arguments execs {style surface} _ _ _ _.

End Host2D.

(* ===================================================================== *)
(** * Properties *)
(* ===================================================================== *)

(** ** Property reads and writes *)

Section ObjectFacts.
Import JS.
Context `{Countable K}.
Implicit Types (o : gmap K value) (k : K) (v : value).

Lemma get_set_eq o k v : get (set o k v) k = v.
Proof. unfold get, set. by rewrite lookup_insert_eq. Qed.

Lemma get_set_ne o k k' v : k ≠ k' → get (set o k v) k' = get o k'.
Proof. intros. unfold get, set. by rewrite lookup_insert_ne. Qed.

Lemma get_del_eq o k : get (del o k) k = Undefined.
Proof. unfold get, del. by rewrite lookup_delete_eq. Qed.

Lemma get_del_ne o k k' : k ≠ k' → get (del o k) k' = get o k'.
Proof. intros. unfold get, del. by rewrite lookup_delete_ne. Qed.

Lemma get_empty k : get (∅ : gmap K value) k = Undefined.
Proof. unfold get. by rewrite lookup_empty. Qed.

Lemma get_absent o k : o !! k = None → get o k = Undefined.
Proof. unfold get. by intros ->. Qed.

End ObjectFacts.

(** ** InputHandler *)

Section InputFacts.
Import JS Input.
Implicit Types (h : InputHandler) (k : Z) (a : action) (acts : list action).

(** The three branches of [isPressed]. *)
Lemma isPressed_consumed k h :
  truthy (get (pressed h) k) = true → isPressed k h = (Bool false, h).
Proof. intros Hp. unfold isPressed. by rewrite Hp. Qed.

Lemma isPressed_first k h :
  truthy (get (pressed h) k) = false →
  truthy (get (down h) k) = true →
  isPressed k h
  = (Bool true, {| down := down h; pressed := set (pressed h) k (Bool true) |}).
Proof.
  intros Hp Hd. unfold isPressed. rewrite Hp, Hd. cbn [pressed].
  by rewrite get_set_eq.
Qed.

Lemma isPressed_up k h :
  truthy (get (pressed h) k) = false →
  truthy (get (down h) k) = false →
  isPressed k h = (Bool false, h).
Proof. intros Hp Hd. unfold isPressed. by rewrite Hp, Hd. Qed.

(** [isPressed] answers [true] or [false], and [true] only for a key that
    is down and that it marks. *)
Lemma isPressed_true k h :
  fst (isPressed k h) = Bool true →
  truthy (get (pressed (snd (isPressed k h))) k) = true.
Proof.
  unfold isPressed.
  destruct (truthy (get (pressed h) k)) eqn:Hp; [discriminate |].
  destruct (truthy (get (down h) k)) eqn:Hd; [| discriminate].
  intros _. cbn. by rewrite get_set_eq.
Qed.

Lemma isPressed_down_unchanged k h : down (snd (isPressed k h)) = down h.
Proof.
  unfold isPressed.
  by destruct (truthy (get (pressed h) k)), (truthy (get (down h) k)).
Qed.

Lemma isPressed_other k k' h :
  k' ≠ k → get (pressed (snd (isPressed k' h))) k = get (pressed h) k.
Proof.
  intros Hne. unfold isPressed.
  destruct (truthy (get (pressed h) k')), (truthy (get (down h) k')); cbn;
    by rewrite ?get_set_ne.
Qed.

Lemma run_cons a acts h : run (a :: acts) h = run acts (snd (step a h)).
Proof. reflexivity. Qed.

Lemma run_app acts acts' h : run (acts ++ acts') h = run acts' (run acts h).
Proof. unfold run. apply fold_left_app. Qed.

Lemma quiet_cons k a acts :
  quiet k (a :: acts) = true ↔ key_event k a = false ∧ quiet k acts = true.
Proof.
  unfold quiet. cbn. rewrite andb_true_iff, negb_true_iff. tauto.
Qed.

Lemma unpolled_cons k a acts :
  unpolled k (a :: acts) = true ↔ a ≠ IsPressed k ∧ unpolled k acts = true.
Proof.
  unfold unpolled. cbn.
  rewrite andb_true_iff, negb_true_iff, bool_decide_eq_false. tauto.
Qed.

Lemma held_cons k a acts :
  held k (a :: acts) = true ↔ is_keyup k a = false ∧ held k acts = true.
Proof.
  unfold held. cbn. rewrite andb_true_iff, negb_true_iff. tauto.
Qed.

Lemma quiet_held k acts : quiet k acts = true → held k acts = true.
Proof.
  induction acts as [| a acts IH]; [done |].
  rewrite quiet_cons, held_cons. intros [Ha Hq]. split; [| auto].
  destruct a; cbn in *; done.
Qed.

(** An action that is neither a key event for [k] nor [isPressed(k)] leaves
    what the two maps hold for [k]. *)
Lemma step_frame k a h :
  key_event k a = false → a ≠ IsPressed k →
  get (down (snd (step a h))) k = get (down h) k
  ∧ get (pressed (snd (step a h))) k = get (pressed h) k.
Proof.
  intros Hev Hq. destruct a as [k' | k' | k' | k']; cbn in *.
  - apply bool_decide_eq_false in Hev. by rewrite get_set_ne.
  - apply bool_decide_eq_false in Hev. by rewrite !get_del_ne.
  - done.
  - assert (k' ≠ k) by congruence.
    destruct (isPressed k' h) as [v h'] eqn:E. cbn.
    replace h' with (snd (isPressed k' h)) by (by rewrite E).
    by rewrite isPressed_down_unchanged, isPressed_other.
Qed.

Lemma run_frame k acts h :
  quiet k acts = true → unpolled k acts = true →
  get (down (run acts h)) k = get (down h) k
  ∧ get (pressed (run acts h)) k = get (pressed h) k.
Proof.
  revert h. induction acts as [| a acts IH]; intros h; [done |].
  rewrite quiet_cons, unpolled_cons, run_cons. intros [Ha Hq] [Hn Hu].
  destruct (step_frame k a h Ha Hn) as [<- <-]. by apply IH.
Qed.

(** Once [k] is marked in [pressed], only a key-up event for [k] unmarks it. *)
Lemma step_keeps_mark k a h :
  is_keyup k a = false →
  truthy (get (pressed h) k) = true →
  truthy (get (pressed (snd (step a h))) k) = true.
Proof.
  intros Hup Hp. destruct a as [k' | k' | k' | k']; cbn in *; try done.
  - apply bool_decide_eq_false in Hup. by rewrite get_del_ne.
  - destruct (isPressed k' h) as [v h'] eqn:E. cbn.
    replace h' with (snd (isPressed k' h)) by (by rewrite E).
    destruct (decide (k' = k)) as [-> |];
      [by rewrite isPressed_consumed | by rewrite isPressed_other].
Qed.

(** While [k] is marked and no key-up event for [k] arrives, every
    [isPressed(k)] returns [false]. *)
Lemma polls_marked k acts h :
  held k acts = true →
  truthy (get (pressed h) k) = true →
  Forall (λ v, v = Bool false) (polls k acts h).
Proof.
  revert h. induction acts as [| a acts IH]; intros h; [constructor |].
  rewrite held_cons. intros [Ha Hh] Hp. cbn [polls].
  pose proof (step_keeps_mark k a h Ha Hp) as Hp'.
  destruct (step a h) as [r h'] eqn:E. cbn [snd] in Hp'.
  apply Forall_app. split; [| by apply IH].
  case_decide as Ea; [| constructor]. subst a. cbn in E.
  rewrite isPressed_consumed in E by done. injection E as <- <-.
  by repeat constructor.
Qed.

(** A key-down event writes [down] only. *)
Lemma keydown_pressed k h : pressed (keydown k h) = pressed h.
Proof. reflexivity. Qed.

(** While [k] is up and unmarked, only a key-down event for [k] changes
    that. *)
Lemma step_released k a h :
  is_keydown k a = false →
  get (down h) k = Undefined →
  truthy (get (pressed h) k) = false →
  get (down (snd (step a h))) k = Undefined
  ∧ truthy (get (pressed (snd (step a h))) k) = false.
Proof.
  intros Ha Hd Hp. destruct a as [k' | k' | k' | k']; cbn in *.
  - apply bool_decide_eq_false in Ha. by rewrite get_set_ne.
  - destruct (decide (k' = k)) as [-> |];
      [by rewrite !get_del_eq | by rewrite !get_del_ne].
  - done.
  - destruct (isPressed k' h) as [v h'] eqn:E. cbn.
    replace h' with (snd (isPressed k' h)) by (by rewrite E).
    rewrite isPressed_down_unchanged. split; [done |].
    destruct (decide (k' = k)) as [-> |]; [| by rewrite isPressed_other].
    rewrite isPressed_up; [done.. |]. by rewrite Hd.
Qed.

Lemma never_down_cons k a acts :
  never_down k (a :: acts) = true
  ↔ is_keydown k a = false ∧ never_down k acts = true.
Proof.
  unfold never_down. cbn. rewrite andb_true_iff, negb_true_iff. tauto.
Qed.

Lemma quiet_never_down k acts : quiet k acts = true → never_down k acts = true.
Proof.
  induction acts as [| a acts IH]; [done |].
  rewrite quiet_cons, never_down_cons. intros [Ha Hq]. split; [| auto].
  destruct a; cbn in *; done.
Qed.

Lemma run_released k acts h :
  never_down k acts = true →
  get (down h) k = Undefined →
  truthy (get (pressed h) k) = false →
  get (down (run acts h)) k = Undefined
  ∧ truthy (get (pressed (run acts h)) k) = false.
Proof.
  revert h. induction acts as [| a acts IH]; intros h; [done |].
  rewrite never_down_cons, run_cons. intros [Ha Hn] Hd Hp.
  destruct (step_released k a h Ha Hd Hp). by apply IH.
Qed.

(** A key that no key-down event has reached: [isDown] finds no property
    and [isPressed] takes its last branch. *)
Lemma never_seen_key k acts :
  never_down k acts = true →
  isDown k (run acts new) = Undefined
  ∧ fst (isPressed k (run acts new)) = Bool false.
Proof.
  intros Hn.
  destruct (run_released k acts new Hn) as [Hd Hp];
    [by unfold new; cbn; rewrite get_empty.. |].
  split; [done |]. rewrite isPressed_up; [done.. |]. by rewrite Hd.
Qed.

(** [keydown], [keyup] and [isPressed] keep the keys of [pressed] among
    those of [down]. *)
Lemma step_pressed_subset_down a h :
  dom (pressed h) ⊆ dom (down h) →
  dom (pressed (snd (step a h))) ⊆ dom (down (snd (step a h))).
Proof.
  intros Hinv. destruct a as [k | k | k | k]; cbn.
  - unfold set. rewrite dom_insert_L. set_solver.
  - unfold del. rewrite !dom_delete_L. intros k' Hk'.
    apply elem_of_difference in Hk' as [Hk' Hne].
    apply elem_of_difference. auto.
  - done.
  - unfold isPressed.
    destruct (truthy (get (pressed h) k)); [done |].
    destruct (truthy (get (down h) k)) eqn:Hd; [| done].
    cbn. unfold set. rewrite dom_insert_L.
    assert (k ∈ dom (down h)) as Hk.
    { apply elem_of_dom. unfold get in Hd.
      destruct (down h !! k); [eauto | discriminate]. }
    intros k' Hk'. apply elem_of_union in Hk' as [Hk' | Hk']; [| auto].
    apply elem_of_singleton in Hk'. by subst k'.
Qed.

Lemma run_pressed_subset_down acts h :
  dom (pressed h) ⊆ dom (down h) →
  dom (pressed (run acts h)) ⊆ dom (down (run acts h)).
Proof.
  revert h. induction acts as [| a acts IH]; intros h Hinv; [done |].
  rewrite run_cons. by apply IH, step_pressed_subset_down.
Qed.

(** [reachable] and [run] describe the same states. *)
Lemma reachable_run h : reachable h ↔ ∃ acts, h = run acts new.
Proof.
  split.
  - induction 1 as [| a h _ [acts ->]]; [by exists [] |].
    exists (acts ++ [a]). by rewrite run_app.
  - intros [acts ->]. induction acts as [| a acts IH] using rev_ind.
    + constructor.
    + rewrite run_app. cbn. by constructor.
Qed.

Lemma reachable_pressed_subset_down h :
  reachable h → dom (pressed h) ⊆ dom (down h).
Proof.
  intros [acts ->]%reachable_run. by apply run_pressed_subset_down.
Qed.

(** Hence a key that is up is not marked: the edge-trigger law below applies
    to it. *)
Lemma up_key_unmarked k h :
  reachable h → down h !! k = None → pressed h !! k = None.
Proof.
  intros Hr Hd. apply not_elem_of_dom. apply not_elem_of_dom in Hd.
  intros Hk. by apply Hd, (reachable_pressed_subset_down h Hr).
Qed.

(** The converse inclusion fails: a key that is down and not polled yet. *)
Lemma down_not_subset_pressed :
  ¬ dom (down (run [KeyDown 32] new)) ⊆ dom (pressed (run [KeyDown 32] new)).
Proof.
  intros Hsub. specialize (Hsub 32). cbn in Hsub. unfold set in Hsub.
  rewrite dom_insert_L, dom_empty_L in Hsub. set_solver.
Qed.

(** C1 (edge-trigger law). Take a handler in which [k] is not marked in
    [pressed] (a new handler, or any handler while [k] is up). After one
    key-down event for [k], and whatever happens to other keys meanwhile,
    the first [isPressed(k)] returns [true]; every later [isPressed(k)]
    returns [false] as long as no key event for [k] arrives. *)
Theorem edge_trigger_law k h pre post :
  pressed h !! k = None →
  quiet k pre = true → unpolled k pre = true →
  quiet k post = true →
  fst (isPressed k (run pre (keydown k h))) = Bool true
  ∧ Forall (λ v, v = Bool false)
      (polls k post (snd (isPressed k (run pre (keydown k h))))).
Proof.
  intros Hfresh Hq Hu Hpost.
  destruct (run_frame k pre (keydown k h) Hq Hu) as [Hd Hp].
  cbn in Hd, Hp. rewrite get_set_eq in Hd.
  rewrite (get_absent _ _ Hfresh) in Hp.
  assert (fst (isPressed k (run pre (keydown k h))) = Bool true) as Hfirst.
  { rewrite isPressed_first; [done | by rewrite Hp | by rewrite Hd]. }
  split; [done |].
  apply polls_marked; [by apply quiet_held | by apply isPressed_true].
Qed.

Lemma edge_trigger_law_witness :
  fst (isPressed 32 (run [IsDown 32; KeyDown 65] (keydown 32 new))) = Bool true
  ∧ Forall (λ v, v = Bool false)
      (polls 32 [IsPressed 32; IsPressed 65; IsDown 32; IsPressed 32]
         (snd (isPressed 32 (run [IsDown 32; KeyDown 65] (keydown 32 new))))).
Proof.
  apply (edge_trigger_law 32 new [IsDown 32; KeyDown 65]
           [IsPressed 32; IsPressed 65; IsDown 32; IsPressed 32]);
    reflexivity.
Defined.

(** C5 (re-arm law). Once [isPressed(k)] has returned [true], a key-up event
    for [k] followed by a key-down event for [k] makes the next
    [isPressed(k)] return [true] again, whatever happened before the key-up
    and whatever happens to other keys in between. *)
Theorem rearm_law k h pre mid post :
  fst (isPressed k h) = Bool true →
  quiet k mid = true →
  quiet k post = true → unpolled k post = true →
  fst (isPressed k
         (run post (keydown k (run mid (keyup k (run pre (snd (isPressed k h))))))))
  = Bool true.
Proof.
  intros _ Hmid Hpost Hu.
  set (h1 := run pre (snd (isPressed k h))).
  destruct (run_released k mid (keyup k h1)) as [_ Hp];
    [by apply quiet_never_down | by cbn; rewrite get_del_eq.. |].
  set (h2 := run mid (keyup k h1)) in *.
  destruct (run_frame k post (keydown k h2) Hpost Hu) as [Hd Hp'].
  cbn in Hd, Hp'. rewrite get_set_eq in Hd.
  rewrite isPressed_first; [done | by rewrite Hp' | by rewrite Hd].
Qed.

Lemma rearm_law_witness :
  fst (isPressed 32
         (run [IsDown 32]
            (keydown 32
               (run [IsPressed 32; KeyDown 65]
                  (keyup 32
                     (run [KeyDown 32; IsPressed 32]
                        (snd (isPressed 32 (keydown 32 new)))))))))
  = Bool true.
Proof.
  apply (rearm_law 32 (keydown 32 new) [KeyDown 32; IsPressed 32]
           [IsPressed 32; KeyDown 65] [IsDown 32]);
    reflexivity.
Defined.

(** C6 (state invariant). In every state reached from the new handler by
    key-down events, key-up events and [isDown]/[isPressed] queries, in any
    order, every key code of [pressed] is a key code of [down]. *)
Theorem pressed_keys_are_down acts :
  dom (pressed (run acts new)) ⊆ dom (down (run acts new)).
Proof. by apply run_pressed_subset_down. Qed.

(** C7, on the code: for a key code that no event and no query has touched,
    [isPressed] returns [false], but [isDown] returns [undefined], which is
    not the boolean [false]. *)
Theorem isDown_unseen_key_undefined :
  isDown 38 new = Undefined
  ∧ isDown 38 new ≠ Bool false
  ∧ fst (isPressed 38 new) = Bool false.
Proof. repeat split; [discriminate]. Qed.

(** C10. A key-down event leaves [pressed] as it is; so once [isPressed(k)]
    has returned [true], no [isPressed(k)] returns [true] again until a
    key-up event for [k] arrives, however many key-down events for [k] the
    host delivers meanwhile. *)
Theorem keydown_does_not_rearm k k' h acts :
  pressed (keydown k' h) = pressed h
  ∧ (fst (isPressed k h) = Bool true →
     held k acts = true →
     Forall (λ v, v = Bool false) (polls k acts (snd (isPressed k h)))).
Proof.
  split; [reflexivity |]. intros Htrue Hheld.
  apply polls_marked; [done | by apply isPressed_true].
Qed.

Lemma keydown_does_not_rearm_witness :
  Forall (λ v, v = Bool false)
    (polls 32 [KeyDown 32; IsPressed 32; KeyDown 32; KeyDown 32; IsPressed 32]
       (snd (isPressed 32 (keydown 32 new)))).
Proof.
  apply (keydown_does_not_rearm 32 32 (keydown 32 new)
           [KeyDown 32; IsPressed 32; KeyDown 32; KeyDown 32; IsPressed 32]);
    reflexivity.
Defined.

End InputFacts.

(** ** AABBIntersect *)

Section CollisionFacts.
Import Collision Grid.

(** C8 (symmetry). Whatever the fields hold and however [+] and [<] act on
    them, [AABBIntersect(a, b)] and [AABBIntersect(b, a)] evaluate the same
    four comparisons, so they return the same boolean. *)
Theorem AABBIntersect_symmetric `{Number num} (a b : Rect num) :
  AABBIntersect a b = AABBIntersect b a.
Proof.
  unfold AABBIntersect.
  rewrite (andb_comm (lt (x b) (add (x a) (w a)))).
  rewrite <- !andb_assoc. do 2 f_equal. apply andb_comm.
Qed.

(** On integers, the test is the conjunction of four strict inequalities. *)
Lemma AABBIntersect_true (a b : Rect Z) :
  AABBIntersect a b = true
  ↔ x a < x b + w b ∧ x b < x a + w a ∧ y a < y b + h b ∧ y b < y a + h a.
Proof.
  unfold AABBIntersect. cbn [lt add Z_Number].
  rewrite !andb_true_iff, !Z.ltb_lt. tauto.
Qed.

(** A rectangle of zero width meets [b] exactly when its abscissa is strictly
    inside the horizontal extent of [b] and the vertical extents overlap. *)
Lemma AABBIntersect_zero_width (a b : Rect Z) :
  w a = 0 →
  AABBIntersect a b = true
  ↔ x b < x a < x b + w b ∧ y a < y b + h b ∧ y b < y a + h a.
Proof. intros Hw. rewrite AABBIntersect_true. lia. Qed.

Lemma AABBIntersect_zero_height (a b : Rect Z) :
  h a = 0 →
  AABBIntersect a b = true
  ↔ y b < y a < y b + h b ∧ x a < x b + w b ∧ x b < x a + w a.
Proof. intros Hh. rewrite AABBIntersect_true. lia. Qed.

(** C2 as stated fails: a segment of zero width that lies inside a rectangle
    intersects it. *)
Lemma degenerate_intersects_counterexample :
  ¬ (∀ a b : Rect Z,
       w a = 0 ∨ h a = 0 →
       AABBIntersect a b = false ∧ AABBIntersect b a = false).
Proof.
  intros Hclaim.
  destruct (Hclaim (mkRect 5 5 0 10) (mkRect 0 0 10 10)) as [Hab _].
  - left. reflexivity.
  - vm_compute in Hab. discriminate.
Qed.

(** On the integers the only zero is 0. *)
Lemma is_zero_Z (z : Z) : is_zero z ↔ z = 0.
Proof.
  unfold is_zero. cbn [lt add Z_Number]. split.
  - intros Hz. destruct (Z.lt_trichotomy z 0) as [Hneg | [-> | Hpos]];
      [| done |].
    + specialize (Hz z 0). rewrite Z.add_0_l, Z.ltb_irrefl in Hz.
      symmetry in Hz. apply Z.ltb_ge in Hz. lia.
    + specialize (Hz 0 0). rewrite Z.add_0_l, Z.ltb_irrefl in Hz.
      apply Z.ltb_ge in Hz. lia.
  - intros -> u v. by rewrite Z.add_0_r.
Qed.

(** C2, amended. Whatever numbers the fields hold: a rectangle [a] of zero
    width intersects [b], in either argument order, only if [a.x] is
    strictly inside the horizontal extent of [b] and the vertical extents
    overlap; a rectangle of zero height only if [a.y] is strictly inside the
    vertical extent of [b] and the horizontal extents overlap. In every
    other case both calls return [false]. *)
Theorem degenerate_intersects_only_inside `{Number num} (a b : Rect num) :
  (is_zero (w a)
   ∧ ¬ (lt (x b) (x a) = true ∧ lt (x a) (add (x b) (w b)) = true
        ∧ lt (y a) (add (y b) (h b)) = true
        ∧ lt (y b) (add (y a) (h a)) = true))
  ∨ (is_zero (h a)
     ∧ ¬ (lt (y b) (y a) = true ∧ lt (y a) (add (y b) (h b)) = true
          ∧ lt (x a) (add (x b) (w b)) = true
          ∧ lt (x b) (add (x a) (w a)) = true)) →
  AABBIntersect a b = false ∧ AABBIntersect b a = false.
Proof.
  unfold AABBIntersect. intros [[Hz Hout] | [Hz Hout]].
  - rewrite (Hz (x b) (x a)).
    destruct (lt (x b) (x a)), (lt (x a) (add (x b) (w b))),
      (lt (y a) (add (y b) (h b))), (lt (y b) (add (y a) (h a)));
      try done.
    by destruct Hout.
  - rewrite (Hz (y b) (y a)).
    destruct (lt (y b) (y a)), (lt (y a) (add (y b) (h b))),
      (lt (x a) (add (x b) (w b))), (lt (x b) (add (x a) (w a)));
      try done.
    by destruct Hout.
Qed.

Lemma degenerate_intersects_only_inside_witness :
  AABBIntersect (mkRect 5 100 0 10) (mkRect 0 0 10 10) = false
  ∧ AABBIntersect (mkRect 0 0 10 10) (mkRect 5 100 0 10) = false.
Proof.
  apply (degenerate_intersects_only_inside
           (mkRect 5 100 0 10) (mkRect 0 0 10 10)).
  left. split.
  - intros u v. simpl. f_equal. lia.
  - simpl. intros (_ & _ & Hy & _). discriminate Hy.
Defined.

End CollisionFacts.

(** ** Canvas and Sprite *)

Section DrawFacts.
Import JS Draw.
Local Open Scope string_scope.

(** What the constructor stores, and what it does not. *)
Lemma Sprite_fields img x y w h :
  let s := Sprite img x y w h in
  get s "img" = img ∧ get s "x" = x ∧ get s "y" = y
  ∧ get s "width" = w ∧ get s "height" = h
  ∧ get s "w" = Undefined ∧ get s "h" = Undefined.
Proof.
  cbn zeta. unfold Sprite.
  repeat split;
    repeat first [ rewrite get_set_eq; reflexivity
                 | rewrite get_set_ne by discriminate
                 | apply get_empty ].
Qed.

(** Both draw paths read [w] and [h], which no sprite has. *)
Lemma drawSprite_call img x y w h dx dy cv :
  drawSprite (Sprite img x y w h) dx dy cv
  = call (DrawImage img x y Undefined Undefined dx dy Undefined Undefined) cv.
Proof.
  unfold drawSprite.
  destruct (Sprite_fields img x y w h) as (-> & -> & -> & _ & _ & -> & ->).
  reflexivity.
Qed.

Lemma draw_call img x y w h dx dy c :
  draw (Sprite img x y w h) dx dy c
  = (c ++ [DrawImage img x y Undefined Undefined dx dy Undefined Undefined])%list.
Proof.
  unfold draw.
  destruct (Sprite_fields img x y w h) as (-> & -> & -> & _ & _ & -> & ->).
  reflexivity.
Qed.

(** C4, on the code: a 16 by 16 sprite drawn at (10, 20). Both
    [Canvas.drawSprite] and [Sprite.draw] pass [undefined] to [drawImage]
    for the source and the destination dimensions, not the stored 16. *)
Theorem draw_passes_undefined_size :
  ctx (drawSprite (Sprite (Ref 1) (Num 0) (Num 0) (Num 16) (Num 16))
         (Num 10) (Num 20) (new (Num 640) (Num 480)))
  = [DrawImage (Ref 1) (Num 0) (Num 0) Undefined Undefined
       (Num 10) (Num 20) Undefined Undefined]
  ∧ draw (Sprite (Ref 1) (Num 0) (Num 0) (Num 16) (Num 16)) (Num 10) (Num 20) []
    = [DrawImage (Ref 1) (Num 0) (Num 0) Undefined Undefined
         (Num 10) (Num 20) Undefined Undefined]
  ∧ get (Sprite (Ref 1) (Num 0) (Num 0) (Num 16) (Num 16)) "width" = Num 16
  ∧ get (Sprite (Ref 1) (Num 0) (Num 0) (Num 16) (Num 16)) "height" = Num 16.
Proof.
  rewrite drawSprite_call, draw_call.
  destruct (Sprite_fields (Ref 1) (Num 0) (Num 0) (Num 16) (Num 16))
    as (_ & _ & _ & Hw & Hh & _).
  by rewrite Hw, Hh.
Qed.

End DrawFacts.

(** ** FPSCounter *)

Section FPSFacts.
Import FPS.
Implicit Types (f : FPSCounter) (clock : list (Z * Z)).

(** The two branches of [update]. *)
Lemma update_open now1 now2 f :
  now1 - lastUpdated f < 1000 →
  update now1 now2 f
  = {| current := current f + 1; last := last f;
       lastUpdated := lastUpdated f; ctx := ctx f |}.
Proof.
  intros Hlt. unfold update. cbn [lastUpdated].
  destruct (Z.leb_spec 1000 (now1 - lastUpdated f)); [lia | reflexivity].
Qed.

Lemma update_close now1 now2 f :
  1000 ≤ now1 - lastUpdated f →
  update now1 now2 f
  = {| current := 0; last := current f + 1; lastUpdated := now2; ctx := ctx f |}.
Proof.
  intros Hge. unfold update. cbn [lastUpdated current ctx].
  destruct (Z.leb_spec 1000 (now1 - lastUpdated f)); [reflexivity | lia].
Qed.

(** Calls made before the window closes only count. *)
Lemma updates_open clock f :
  within_first_second (lastUpdated f) clock →
  updates clock f
  = {| current := current f + Z.of_nat (length clock); last := last f;
       lastUpdated := lastUpdated f; ctx := ctx f |}.
Proof.
  revert f. induction clock as [| t clock IH]; intros f Hin.
  - cbn. rewrite Z.add_0_r. by destruct f.
  - apply Forall_cons in Hin as [Ht Hin]. unfold updates. cbn [fold_left].
    rewrite update_open by done. fold (updates clock).
    rewrite IH by done. cbn [current last lastUpdated ctx length].
    f_equal. lia.
Qed.

(** C3 as stated fails: with two frames recorded in the first second, the
    call that closes the window sets [last] to 3, not to 2. *)
Lemma rollover_counterexample :
  ¬ (∀ t0 c clock now1 now2,
       within_first_second t0 clock →
       1000 ≤ now1 - lastUpdated (updates clock (new t0 c)) →
       last (updates clock (new t0 c)) = 0
       ∧ current (updates clock (new t0 c)) = Z.of_nat (length clock)
       ∧ last (update now1 now2 (updates clock (new t0 c)))
         = Z.of_nat (length clock)
       ∧ current (update now1 now2 (updates clock (new t0 c))) = 0).
Proof.
  intros Hclaim.
  destruct (Hclaim 0 JS.Undefined [(16, 16); (33, 33)] 1000 1000)
    as (_ & _ & Hlast & _).
  - repeat constructor.
  - vm_compute. discriminate.
  - vm_compute in Hlast. discriminate.
Qed.

(** C3, amended. After [n] calls of [update] made less than 1000ms after
    construction, [last] is 0 and [current] is [n]. When a further call
    reads a clock at least 1000ms after [lastUpdated], it counts itself
    before it closes the window: [last] becomes [n + 1], [current] is reset
    to 0 and [lastUpdated] is the clock read in the branch. *)
Theorem window_rollover t0 c clock now1 now2 :
  within_first_second t0 clock →
  1000 ≤ now1 - lastUpdated (updates clock (new t0 c)) →
  last (updates clock (new t0 c)) = 0
  ∧ current (updates clock (new t0 c)) = Z.of_nat (length clock)
  ∧ last (update now1 now2 (updates clock (new t0 c)))
    = Z.of_nat (length clock) + 1
  ∧ current (update now1 now2 (updates clock (new t0 c))) = 0
  ∧ lastUpdated (update now1 now2 (updates clock (new t0 c))) = now2.
Proof.
  intros Hin Hge. rewrite update_close by done.
  rewrite (updates_open clock (new t0 c)) by done. cbn. done.
Qed.

Lemma window_rollover_witness :
  last (updates [(16, 16); (33, 33)] (new 0 JS.Undefined)) = 0
  ∧ current (updates [(16, 16); (33, 33)] (new 0 JS.Undefined)) = 2
  ∧ last (update 1000 1001 (updates [(16, 16); (33, 33)] (new 0 JS.Undefined)))
    = 2 + 1
  ∧ current (update 1000 1001 (updates [(16, 16); (33, 33)] (new 0 JS.Undefined)))
    = 0
  ∧ lastUpdated
      (update 1000 1001 (updates [(16, 16); (33, 33)] (new 0 JS.Undefined)))
    = 1001.
Proof.
  apply (window_rollover 0 JS.Undefined [(16, 16); (33, 33)] 1000 1001).
  - unfold within_first_second. repeat constructor; simpl; lia.
  - vm_compute. discriminate.
Defined.

End FPSFacts.

(** ** Animate *)

Section LoopFacts.
Import Loop.
Context {G : Type} (loop : G → G).
Implicit Types (w : World G) (m : nat).

(** On a host that has a scheduling function, [run] calls [loop] once and
    registers itself once. *)
Lemma run_registers w :
  raf (window w) = true →
  run loop w
  = Returned {| window := window w; queue := queue w ++ [Run];
                game := loop (game w) |}.
Proof. intros Hraf. unfold run. cbn [window queue game]. by rewrite Hraf. Qed.

(** On a host that has none, [loop] still runs once and the call of [raf]
    throws. *)
Lemma run_throws w :
  raf (window w) = false →
  run loop w
  = TypeError {| window := window w; queue := queue w; game := loop (game w) |}.
Proof. intros Hraf. unfold run. cbn [window queue game]. by rewrite Hraf. Qed.

(** A frame with the single registration of the driver pending. *)
Lemma frame_pending w :
  raf (window w) = true → queue w = [Run] →
  frame loop w
  = {| window := window w; queue := [Run]; game := loop (game w) |}.
Proof.
  intros Hraf Hq. unfold frame. rewrite Hq. cbn [fold_left invoke].
  by rewrite run_registers.
Qed.

Lemma frames_pending m w :
  raf (window w) = true → queue w = [Run] →
  Nat.iter m (frame loop) w
  = {| window := window w; queue := [Run]; game := Nat.iter m loop (game w) |}.
Proof.
  intros Hraf Hq. induction m as [| m IH].
  - cbn. rewrite <- Hq. by destruct w.
  - rewrite !Nat.iter_succ, IH. by rewrite frame_pending.
Qed.

(** After a positive number of ticks the callback has run that many times
    and one registration is pending. *)
Lemma ticks_started m w :
  raf (window w) = true → queue w = [] →
  ticks loop (S m) w
  = {| window := window w; queue := [Run];
       game := Nat.iter (S m) loop (game w) |}.
Proof.
  intros Hraf Hq. unfold ticks, Animate.
  rewrite run_registers by done. cbn [state]. rewrite Hq. cbn [app].
  rewrite frames_pending by done. cbn [window game].
  f_equal. symmetry. apply Nat.iter_succ_r.
Qed.

Lemma ticks_game m w :
  raf (window w) = true → queue w = [] →
  game (ticks loop m w) = Nat.iter m loop (game w).
Proof.
  intros Hraf Hq. destruct m as [| m]; [done |]. by rewrite ticks_started.
Qed.

End LoopFacts.

Section CounterLoop.
Import Loop.

Lemma iter_increment m c : Nat.iter m increment c = c + Z.of_nat m.
Proof.
  induction m as [| m IH]; [cbn; lia |].
  rewrite Nat.iter_succ, IH. unfold increment. lia.
Qed.

(** C9. On a host that has a scheduling function and no callback pending,
    [Animate(loop, canvas)] calls [loop] once before it returns and leaves
    exactly one registration for the next frame; a frame with that
    registration pending calls [loop] once and leaves exactly one
    registration again; so with a callback that increments a counter that
    starts at 0, the counter is [m] after [m] ticks, the call of [Animate]
    being the first. *)
Theorem animate_counts_ticks (w : World Z) (m : nat) (c : Z) :
  raf (window w) = true → queue w = [] → game w = 0 →
  Animate increment w
  = Returned {| window := window w; queue := [Run]; game := 1 |}
  ∧ frame increment {| window := window w; queue := [Run]; game := c |}
    = {| window := window w; queue := [Run]; game := c + 1 |}
  ∧ game (ticks increment m w) = Z.of_nat m.
Proof.
  intros Hraf Hq H0. repeat split.
  - unfold Animate. rewrite run_registers by done. by rewrite Hq, H0.
  - by rewrite frame_pending.
  - rewrite ticks_game by done. rewrite iter_increment. lia.
Qed.

Lemma animate_counts_ticks_witness :
  Animate increment (mkWorld (mkWindow false true false false false) [] 0)
  = Returned (mkWorld (mkWindow false true false false false) [Run] 1)
  ∧ frame increment (mkWorld (mkWindow false true false false false) [Run] 41)
    = mkWorld (mkWindow false true false false false) [Run] (41 + 1)
  ∧ game (ticks increment 60
            (mkWorld (mkWindow false true false false false) [] 0))
    = Z.of_nat 60.
Proof.
  apply (animate_counts_ticks
           (mkWorld (mkWindow false true false false false) [] 0) 60 41);
    reflexivity.
Defined.

End CounterLoop.

(** ** InputHandler: the life of a key *)

Section KeyFacts.
Import JS Input Tally.
Implicit Types (h : InputHandler) (k : Z) (a : action) (acts : list action).

(** [isPressed] answers with a boolean; a [false] answer leaves the handler
    as it is. *)
Lemma isPressed_answer k h :
  fst (isPressed k h) = Bool true
  ∨ (fst (isPressed k h) = Bool false ∧ snd (isPressed k h) = h).
Proof.
  unfold isPressed. destruct (truthy (get (pressed h) k)); [by right |].
  destruct (truthy (get (down h) k)); [| by right].
  left. cbn. by rewrite get_set_eq.
Qed.

(** What [isPressed(k)] returns depends on the two properties [k] only. *)
Lemma isPressed_reads_k k h h' :
  get (down h') k = get (down h) k →
  get (pressed h') k = get (pressed h) k →
  fst (isPressed k h') = fst (isPressed k h).
Proof.
  intros Hd Hp. unfold isPressed. rewrite Hd, Hp.
  destruct (truthy (get (pressed h) k)); [done |].
  destruct (truthy (get (down h) k)); [| done].
  cbn. by rewrite !get_set_eq.
Qed.

Lemma step_keeps_down k a h :
  is_keyup k a = false →
  get (down h) k = Bool true →
  get (down (snd (step a h))) k = Bool true.
Proof.
  intros Hup Hd. destruct a as [k' | k' | k' | k']; cbn in *.
  - destruct (decide (k' = k)) as [-> |];
      [by rewrite get_set_eq | by rewrite get_set_ne].
  - apply bool_decide_eq_false in Hup. by rewrite get_del_ne.
  - done.
  - destruct (isPressed k' h) as [v h'] eqn:E. cbn.
    replace h' with (snd (isPressed k' h)) by (by rewrite E).
    by rewrite isPressed_down_unchanged.
Qed.

(** X1. From a key-down event for [k] until a key-up event for [k],
    [isDown(k)] returns [true], whatever else happens meanwhile. *)
Theorem isDown_true_while_held k h acts :
  held k acts = true →
  isDown k (run acts (keydown k h)) = Bool true.
Proof.
  intros Hheld. unfold isDown.
  assert (get (down (keydown k h)) k = Bool true) as Hd
    by (cbn; apply get_set_eq).
  revert Hheld Hd. generalize (keydown k h) as h0.
  induction acts as [| a acts IH]; intros h0 Hheld Hd; [done |].
  apply held_cons in Hheld as [Ha Hheld]. rewrite run_cons.
  apply IH; [done |]. by apply step_keeps_down.
Qed.

Lemma isDown_true_while_held_witness :
  isDown 37 (run [KeyDown 37; IsPressed 37; KeyUp 39; IsPressed 37]
               (keydown 37 new))
  = Bool true.
Proof.
  apply (isDown_true_while_held 37 new
           [KeyDown 37; IsPressed 37; KeyUp 39; IsPressed 37]).
  reflexivity.
Defined.

(** X2. From a key-up event for [k] until the next key-down event for [k],
    [isDown(k)] returns [undefined] and [isPressed(k)] returns [false]. *)
Theorem released_key_reads_up k h acts :
  never_down k acts = true →
  isDown k (run acts (keyup k h)) = Undefined
  ∧ fst (isPressed k (run acts (keyup k h))) = Bool false.
Proof.
  intros Hn.
  destruct (run_released k acts (keyup k h) Hn) as [Hd Hp];
    [by cbn; rewrite get_del_eq.. |].
  split; [done |]. rewrite isPressed_up; [done.. |]. by rewrite Hd.
Qed.

Lemma released_key_reads_up_witness :
  isDown 37 (run [IsPressed 37; KeyDown 39; KeyUp 37]
               (keyup 37 (snd (isPressed 37 (keydown 37 new)))))
  = Undefined
  ∧ fst (isPressed 37
           (run [IsPressed 37; KeyDown 39; KeyUp 37]
              (keyup 37 (snd (isPressed 37 (keydown 37 new))))))
    = Bool false.
Proof.
  apply (released_key_reads_up 37 (snd (isPressed 37 (keydown 37 new)))
           [IsPressed 37; KeyDown 39; KeyUp 37]).
  reflexivity.
Defined.

(** X3. In a state the handler can reach, a key-up event for a key that is
    not down changes nothing. *)
Theorem keyup_of_up_key_is_noop k acts :
  down (run acts new) !! k = None →
  keyup k (run acts new) = run acts new.
Proof.
  intros Hd.
  assert (pressed (run acts new) !! k = None) as Hp.
  { apply up_key_unmarked; [| done]. apply reachable_run. eauto. }
  destruct (run acts new) as [d p]. cbn in *. unfold keyup, del. cbn.
  by rewrite !delete_id.
Qed.

Lemma keyup_of_up_key_is_noop_witness :
  keyup 40 (run [KeyDown 38; IsPressed 38] new)
  = run [KeyDown 38; IsPressed 38] new.
Proof.
  apply (keyup_of_up_key_is_noop 40 [KeyDown 38; IsPressed 38]).
  reflexivity.
Defined.

(** The only value the listeners and [isPressed] ever store is [true]. *)
Lemma step_stores_true a h :
  map_Forall (λ _ v, v = Bool true) (down h) →
  map_Forall (λ _ v, v = Bool true) (pressed h) →
  map_Forall (λ _ v, v = Bool true) (down (snd (step a h)))
  ∧ map_Forall (λ _ v, v = Bool true) (pressed (snd (step a h))).
Proof.
  intros Hd Hp. destruct a as [k | k | k | k]; cbn.
  - split; [| done]. by apply map_Forall_insert_2.
  - split; by apply map_Forall_delete.
  - done.
  - unfold isPressed. destruct (truthy (get (pressed h) k)); [done |].
    destruct (truthy (get (down h) k)); [| done].
    cbn. split; [done |]. by apply map_Forall_insert_2.
Qed.

Lemma run_stores_true acts :
  map_Forall (λ _ v, v = Bool true) (down (run acts new))
  ∧ map_Forall (λ _ v, v = Bool true) (pressed (run acts new)).
Proof.
  induction acts as [| a acts [Hd Hp]] using rev_ind.
  - split; apply map_Forall_empty.
  - rewrite run_app. cbn. by apply step_stores_true.
Qed.

Lemma get_stored_true (o : gmap Z value) k :
  map_Forall (λ _ v, v = Bool true) o →
  get o k = if bool_decide (k ∈ dom o) then Bool true else Undefined.
Proof.
  intros Ho. unfold get. destruct (o !! k) as [v |] eqn:E.
  - rewrite bool_decide_eq_true_2 by (apply elem_of_dom; eauto).
    cbn. by apply (Ho k).
  - rewrite bool_decide_eq_false_2 by by apply not_elem_of_dom.
    done.
Qed.

(** X4. In every state the handler can reach, [isDown(k)] returns [true]
    when [k] is a key of [down] and [undefined] when it is not: it never
    returns [false]. *)
Theorem isDown_true_or_undefined k acts :
  isDown k (run acts new)
  = (if bool_decide (k ∈ dom (down (run acts new)))
     then Bool true else Undefined)
  ∧ isDown k (run acts new) ≠ Bool false.
Proof.
  destruct (run_stores_true acts) as [Hd _]. unfold isDown.
  rewrite (get_stored_true _ k Hd). split; [done |]. by case_bool_decide.
Qed.

(** X5. In every state the handler can reach, [isPressed(k)] returns [true]
    exactly when [k] is a key of [down] and not a key of [pressed]; it
    returns [false] otherwise. *)
Theorem isPressed_true_iff_unreported k acts :
  fst (isPressed k (run acts new))
  = Bool (bool_decide (k ∈ dom (down (run acts new))
                       ∧ k ∉ dom (pressed (run acts new)))).
Proof.
  destruct (run_stores_true acts) as [Hd Hp].
  pose proof (get_stored_true _ k Hd) as Ed.
  pose proof (get_stored_true _ k Hp) as Ep.
  destruct (decide (k ∈ dom (pressed (run acts new)))) as [Hin | Hout].
  - rewrite bool_decide_eq_true_2 in Ep by done.
    rewrite isPressed_consumed by (by rewrite Ep).
    cbn. by rewrite bool_decide_eq_false_2 by tauto.
  - rewrite bool_decide_eq_false_2 in Ep by done.
    destruct (decide (k ∈ dom (down (run acts new)))) as [Hin' | Hout'].
    + rewrite bool_decide_eq_true_2 in Ed by done.
      rewrite isPressed_first by (by rewrite ?Ep, ?Ed).
      cbn. by rewrite bool_decide_eq_true_2.
    + rewrite bool_decide_eq_false_2 in Ed by done.
      rewrite isPressed_up by (by rewrite ?Ep, ?Ed).
      cbn. by rewrite bool_decide_eq_false_2 by tauto.
Qed.

(** X6. Keys are tracked independently: events for other keys and queries
    other than [isPressed(k)] change neither what [isDown(k)] nor what
    [isPressed(k)] returns. *)
Theorem other_keys_do_not_interfere k h acts :
  quiet k acts = true → unpolled k acts = true →
  isDown k (run acts h) = isDown k h
  ∧ fst (isPressed k (run acts h)) = fst (isPressed k h).
Proof.
  intros Hq Hu. destruct (run_frame k acts h Hq Hu) as [Hd Hp].
  split; [done |]. by apply isPressed_reads_k.
Qed.

Lemma other_keys_do_not_interfere_witness :
  isDown 65 (run [KeyDown 68; IsPressed 68; KeyUp 87; IsDown 65] (keydown 65 new))
  = isDown 65 (keydown 65 new)
  ∧ fst (isPressed 65
           (run [KeyDown 68; IsPressed 68; KeyUp 87; IsDown 65] (keydown 65 new)))
    = fst (isPressed 65 (keydown 65 new)).
Proof.
  apply (other_keys_do_not_interfere 65 (keydown 65 new)
           [KeyDown 68; IsPressed 68; KeyUp 87; IsDown 65]);
    reflexivity.
Defined.

(** X7. Repeated key-down events for one key (the host's auto-repeat) leave
    the handler as the first of them left it. *)
Theorem repeated_keydown_is_one k h n :
  Nat.iter (S n) (keydown k) h = keydown k h.
Proof.
  induction n as [| n IH]; [done |].
  rewrite Nat.iter_succ, IH. unfold keydown, set. cbn.
  by rewrite insert_insert_eq.
Qed.

(** X8. A key pressed and released before any poll leaves no trace: the
    key-up event after the key-down events gives the state that the key-up
    event alone gives. *)
Theorem unpolled_tap_is_lost k h n :
  keyup k (Nat.iter n (keydown k) h) = keyup k h.
Proof.
  induction n as [| n IH]; [done |].
  rewrite Nat.iter_succ, <- IH. unfold keyup, keydown, set, del. cbn.
  by rewrite delete_insert_eq.
Qed.

(** An action that is no key event for [k] and not [isPressed(k)] keeps [k]
    armed or not as it was. *)
Lemma step_armed k a h :
  key_event k a = false → a ≠ IsPressed k →
  armed k (snd (step a h)) = armed k h.
Proof.
  intros Hev Hq. unfold armed.
  by destruct (step_frame k a h Hev Hq) as [-> ->].
Qed.

Lemma isPressed_armed k h :
  armed k h = true →
  fst (isPressed k h) = Bool true ∧ armed k (snd (isPressed k h)) = false.
Proof.
  unfold armed. intros [Hd Hp%negb_true_iff]%andb_true_iff.
  rewrite isPressed_first by done. cbn. rewrite get_set_eq. cbn.
  split; [done |]. apply andb_false_r.
Qed.

Lemma isPressed_unarmed k h :
  armed k h = false → isPressed k h = (Bool false, h).
Proof.
  unfold armed. intros Ha.
  destruct (truthy (get (pressed h) k)) eqn:Hp;
    [by apply isPressed_consumed |].
  apply isPressed_up; [done |]. rewrite andb_true_r in Ha. done.
Qed.

Lemma reported_app vs vs' : reported (vs ++ vs') = (reported vs + reported vs')%nat.
Proof. apply count_occ_app. Qed.

Lemma reported_all_false vs :
  Forall (λ v, v = Bool false) vs → reported vs = 0%nat.
Proof.
  induction 1 as [| v vs -> _ IH]; [done |].
  unfold reported in *. rewrite count_occ_cons_neq; done.
Qed.

Lemma reported_one b :
  reported (option_list (Some (Bool b))) = if b then 1%nat else 0%nat.
Proof. by destruct b. Qed.

(** The presses reported by a run never exceed the key-down events it
    delivers, plus one when [k] is armed at the start. *)
Lemma reported_le_downs k acts h :
  (reported (polls k acts h)
   ≤ downs k acts + (if armed k h then 1 else 0))%nat.
Proof.
  revert h. induction acts as [| a acts IH]; intros h; [cbn; lia |].
  cbn [polls]. destruct (step a h) as [r h'] eqn:E.
  assert (h' = snd (step a h)) as Eh by (by rewrite E).
  specialize (IH h'). rewrite reported_app.
  unfold downs in *. cbn [count_occ].
  destruct (decide (a = IsPressed k)) as [-> | Hq].
  - destruct (action_eq_dec (IsPressed k) (KeyDown k)) as [? |]; [done |].
    cbn in E. destruct (armed k h) eqn:Ha.
    + destruct (isPressed_armed k h Ha) as [Hv Ha'].
      destruct (isPressed k h) as [v h''] eqn:E'. cbn in Hv, Ha'.
      injection E as <- <-. subst v. rewrite Ha' in IH.
      rewrite reported_one. lia.
    + rewrite isPressed_unarmed in E by done. injection E as <- <-.
      rewrite Ha in IH. rewrite reported_one. lia.
  - change (reported []) with 0%nat.
    destruct (action_eq_dec a (KeyDown k)) as [-> | Hd].
    + destruct (armed k h'), (armed k h); lia.
    + destruct (key_event k a) eqn:Hev.
      * destruct a as [k' | k' | k' | k']; cbn in Hev; try done;
          apply bool_decide_eq_true in Hev; subst k'; [done |].
        assert (armed k h' = false) as Ha'.
        { rewrite Eh. unfold armed. cbn. by rewrite get_del_eq. }
        rewrite Ha' in IH. lia.
      * replace (armed k h') with (armed k h) in IH
          by (rewrite Eh; symmetry; by apply step_armed).
        lia.
Qed.

(** X9. Starting from the new handler, [isPressed(k)] never returns [true]
    more often than the host has delivered key-down events for [k]. *)
Theorem presses_le_keydowns k acts :
  (reported (polls k acts new) ≤ downs k acts)%nat.
Proof.
  pose proof (reported_le_downs k acts new) as Hle.
  replace (armed k new) with false in Hle; [lia |].
  unfold armed, new. cbn. by rewrite get_empty.
Qed.

(** X10. While no key-up event for [k] arrives, [isPressed(k)] returns
    [true] at most once, whatever the state at the start and however many
    key-down events for [k] arrive. *)
Theorem one_press_per_hold k h acts :
  held k acts = true →
  (reported (polls k acts h) ≤ 1)%nat.
Proof.
  revert h. induction acts as [| a acts IH]; intros h Hheld; [cbn; lia |].
  apply held_cons in Hheld as [Ha Hheld].
  cbn [polls]. destruct (step a h) as [r h'] eqn:E.
  rewrite reported_app. specialize (IH h' Hheld).
  destruct (decide (a = IsPressed k)) as [-> | Hq];
    [| change (reported []) with 0%nat; lia].
  cbn in E. destruct (isPressed_answer k h) as [Hv | [Hv Hh]].
  - pose proof (isPressed_true k h Hv) as Hm.
    destruct (isPressed k h) as [v h''] eqn:E'. cbn in Hv, Hm.
    injection E as <- <-. subst v.
    rewrite (reported_all_false (polls k acts h''))
      by by apply polls_marked.
    rewrite reported_one. lia.
  - destruct (isPressed k h) as [v h''] eqn:E'. cbn in Hv.
    injection E as <- <-. subst v. rewrite reported_one. lia.
Qed.

Lemma one_press_per_hold_witness :
  (reported
     (polls 32 [IsPressed 32; KeyDown 32; IsPressed 32; KeyDown 32; IsPressed 32]
        (keydown 32 new))
   ≤ 1)%nat.
Proof.
  apply (one_press_per_hold 32 (keydown 32 new)
           [IsPressed 32; KeyDown 32; IsPressed 32; KeyDown 32; IsPressed 32]).
  reflexivity.
Defined.

End KeyFacts.

(** ** AABBIntersect on the pixel grid *)

Section GridFacts.
Import Collision Grid.
Implicit Types (a b : Rect Z).

(** X11. For rectangles whose fields are integers of magnitude at most 2^52
    (where the sums of the code are exact) and whose width and height are
    positive: they intersect exactly when some pixel lies in both. *)
Theorem intersect_iff_shared_pixel a b :
  in_range a → in_range b →
  0 < w a → 0 < h a → 0 < w b → 0 < h b →
  AABBIntersect a b = true ↔ ∃ px py, covers a px py ∧ covers b px py.
Proof.
  intros _ _ Hwa Hha Hwb Hhb. rewrite AABBIntersect_true. unfold covers.
  split.
  - intros (H1 & H2 & H3 & H4).
    exists (Z.max (x a) (x b)), (Z.max (y a) (y b)). lia.
  - intros (px & py & Ha & Hb). lia.
Qed.

Lemma intersect_iff_shared_pixel_witness :
  AABBIntersect (mkRect 0 0 10 10) (mkRect 5 5 10 10) = true
  ↔ ∃ px py, covers (mkRect 0 0 10 10) px py ∧ covers (mkRect 5 5 10 10) px py.
Proof.
  apply (intersect_iff_shared_pixel (mkRect 0 0 10 10) (mkRect 5 5 10 10));
    unfold in_range, small; simpl; lia.
Defined.

(** X12. A rectangle whose fields are integers of magnitude at most 2^52
    intersects itself exactly when its width and its height are positive. *)
Theorem self_intersect_iff_positive a :
  in_range a →
  AABBIntersect a a = true ↔ 0 < w a ∧ 0 < h a.
Proof. intros _. rewrite AABBIntersect_true. lia. Qed.

Lemma self_intersect_iff_positive_witness :
  AABBIntersect (mkRect 3 4 10 20) (mkRect 3 4 10 20) = true
  ↔ 0 < w (mkRect 3 4 10 20) ∧ 0 < h (mkRect 3 4 10 20).
Proof.
  apply (self_intersect_iff_positive (mkRect 3 4 10 20)).
  unfold in_range, small; simpl; lia.
Defined.

(** X13. For rectangles and offsets that are integers of magnitude at most
    2^52, and that stay so once moved: moving both rectangles by the same
    offset does not change the answer. *)
Theorem intersect_translate dx dy a b :
  small dx → small dy →
  in_range a → in_range b →
  in_range (translate dx dy a) → in_range (translate dx dy b) →
  AABBIntersect (translate dx dy a) (translate dx dy b) = AABBIntersect a b.
Proof.
  intros _ _ _ _ _ _.
  apply eq_true_iff_eq. rewrite !AABBIntersect_true. unfold translate. cbn.
  lia.
Qed.

Lemma intersect_translate_witness :
  AABBIntersect (translate 100 (-7) (mkRect 0 0 10 10))
    (translate 100 (-7) (mkRect 5 5 10 10))
  = AABBIntersect (mkRect 0 0 10 10) (mkRect 5 5 10 10).
Proof.
  apply (intersect_translate 100 (-7) (mkRect 0 0 10 10) (mkRect 5 5 10 10));
    unfold in_range, small; simpl; lia.
Defined.

(** X14. For rectangles whose fields are integers of magnitude at most 2^52:
    the test fails exactly when, along one axis, one rectangle ends at or
    before the place where the other begins; so rectangles that only touch
    along an edge or at a corner do not intersect. *)
Theorem disjoint_iff_separated a b :
  in_range a → in_range b →
  AABBIntersect a b = false
  ↔ x b + w b ≤ x a ∨ x a + w a ≤ x b ∨ y b + h b ≤ y a ∨ y a + h a ≤ y b.
Proof.
  intros _ _. rewrite <- not_true_iff_false, AABBIntersect_true. lia.
Qed.

Lemma disjoint_iff_separated_witness :
  AABBIntersect (mkRect 0 0 10 10) (mkRect 10 0 10 10) = false
  ↔ x (mkRect 10 0 10 10) + w (mkRect 10 0 10 10) ≤ x (mkRect 0 0 10 10)
    ∨ x (mkRect 0 0 10 10) + w (mkRect 0 0 10 10) ≤ x (mkRect 10 0 10 10)
    ∨ y (mkRect 10 0 10 10) + h (mkRect 10 0 10 10) ≤ y (mkRect 0 0 10 10)
    ∨ y (mkRect 0 0 10 10) + h (mkRect 0 0 10 10) ≤ y (mkRect 10 0 10 10).
Proof.
  apply (disjoint_iff_separated (mkRect 0 0 10 10) (mkRect 10 0 10 10));
    unfold in_range, small; simpl; lia.
Defined.

End GridFacts.

(** ** Canvas and Sprite: the size of a sprite *)

Section SpriteFacts.
Import JS Draw.
Local Open Scope string_scope.

(** X15. Whatever width and height the constructor was given, both draw
    paths call [drawImage] with [undefined] in the four size arguments; two
    sprites that differ in size only make the same call. *)
Theorem sprite_size_never_reaches_drawImage img x y w h w' h' dx dy cv :
  drawSprite (Sprite img x y w h) dx dy cv
  = call (DrawImage img x y Undefined Undefined dx dy Undefined Undefined) cv
  ∧ draw (Sprite img x y w h) dx dy (ctx cv)
    = ctx (drawSprite (Sprite img x y w h) dx dy cv)
  ∧ drawSprite (Sprite img x y w h) dx dy cv
    = drawSprite (Sprite img x y w' h') dx dy cv.
Proof.
  rewrite !drawSprite_call, draw_call. done.
Qed.

(** X16. A sprite whose [w] and [h] are assigned after construction is
    drawn unscaled: [drawImage] gets them as source size and as destination
    size. *)
Theorem sprite_with_w_h_draws_unscaled img x y w h dx dy cv :
  drawSprite (set (set (Sprite img x y w h) "w" w) "h" h) dx dy cv
  = call (DrawImage img x y w h dx dy w h) cv.
Proof.
  unfold drawSprite.
  destruct (Sprite_fields img x y w h) as (Hi & Hx & Hy & _).
  rewrite get_set_eq.
  rewrite !(get_set_ne _ "h") by discriminate.
  rewrite get_set_eq.
  rewrite !(get_set_ne _ "w") by discriminate.
  by rewrite Hi, Hx, Hy.
Qed.

End SpriteFacts.

(** ** FPSCounter: every window, and what is displayed *)

Section WindowFacts.
Import FPS Hud.
Implicit Types (f : FPSCounter) (clock : list (Z * Z)).

Lemma updates_app clock clock' f :
  updates (clock ++ clock') f = updates clock' (updates clock f).
Proof. unfold updates. apply fold_left_app. Qed.

(** X17. In every window, not only the first: when [n] calls of [update]
    read a clock less than 1000ms after [lastUpdated] and the next call
    reads one at least 1000ms after it, that call sets [last] to the count
    the window started with plus [n + 1], resets [current] to 0 and starts
    the next window at the clock it reads in the branch. *)
Theorem every_window_reports_its_frames f clock now1 now2 :
  within_first_second (lastUpdated f) clock →
  1000 ≤ now1 - lastUpdated f →
  update now1 now2 (updates clock f)
  = {| current := 0;
       last := current f + Z.of_nat (length clock) + 1;
       lastUpdated := now2;
       ctx := ctx f |}.
Proof.
  intros Hin Hge. rewrite updates_open by done.
  by rewrite update_close.
Qed.

Lemma every_window_reports_its_frames_witness :
  update 2100 2101
    (updates [(1500, 1500); (1900, 1900)]
       (update 1050 1051 (new 0 JS.Undefined)))
  = {| current := 0; last := 0 + Z.of_nat 2 + 1; lastUpdated := 2101;
       ctx := JS.Undefined |}.
Proof.
  apply (every_window_reports_its_frames
           (update 1050 1051 (new 0 JS.Undefined))
           [(1500, 1500); (1900, 1900)] 2100 2101).
  - unfold within_first_second. repeat constructor; simpl; lia.
  - simpl. lia.
Defined.

Lemma update_counts now1 now2 f n :
  0 ≤ current f → 0 ≤ last f → current f + last f ≤ n →
  0 ≤ current (update now1 now2 f) ∧ 0 ≤ last (update now1 now2 f)
  ∧ current (update now1 now2 f) + last (update now1 now2 f) ≤ n + 1.
Proof.
  intros Hc Hl Hn. unfold update. cbn.
  destruct (1000 <=? now1 - lastUpdated f); cbn; lia.
Qed.

(** X18. Whatever the clock reads, after any number of calls of [update] on
    a new counter, [current] and [last] are not negative and together they
    do not exceed the number of calls. *)
Theorem counts_bounded_by_calls t0 c clock :
  0 ≤ current (updates clock (new t0 c))
  ∧ 0 ≤ last (updates clock (new t0 c))
  ∧ current (updates clock (new t0 c)) + last (updates clock (new t0 c))
    ≤ Z.of_nat (length clock).
Proof.
  induction clock as [| t clock IH] using rev_ind; [cbn; lia |].
  rewrite updates_app, length_app. cbn [updates fold_left length].
  destruct IH as (Hc & Hl & Hn).
  pose proof (update_counts (fst t) (snd t) _ _ Hc Hl Hn). lia.
Qed.

Lemma steady_length t0 d n : length (steady t0 d n) = n.
Proof. unfold steady. by rewrite length_map, length_seq. Qed.

Lemma steady_succ t0 d n :
  steady t0 d (S n)
  = steady t0 d n
    ++ [(t0 + d * Z.of_nat (S n), t0 + d * Z.of_nat (S n))].
Proof. unfold steady. by rewrite seq_S, map_app. Qed.

Lemma steady_within t0 d n :
  0 < d → d * Z.of_nat n < 1000 → within_first_second t0 (steady t0 d n).
Proof.
  intros Hd Hn. unfold within_first_second, steady.
  apply Forall_map, Forall_forall. intros i Hi%list_elem_of_In%in_seq. cbn.
  nia.
Qed.

(** X19. At a steady rate of one frame every [d] milliseconds, the first
    window closes at frame number [999 / d + 1], the least whole number of
    frames that takes 1000ms, and that number is what [last] reports. *)
Theorem steady_rate_reported t0 d c :
  0 < d →
  updates (steady t0 d (S (Z.to_nat (999 / d)))) (new t0 c)
  = {| current := 0; last := 999 / d + 1;
       lastUpdated := t0 + d * (999 / d + 1); ctx := c |}.
Proof.
  intros Hd.
  assert (0 ≤ 999 / d) as Hq by (apply Z.div_pos; lia).
  pose proof (Z.mul_div_le 999 d Hd) as Hle.
  pose proof (Z.mul_succ_div_gt 999 d Hd) as Hgt.
  rewrite steady_succ, updates_app. cbn [updates fold_left fst snd].
  rewrite (updates_open _ (new t0 c))
    by (apply steady_within; [done | cbn; lia]).
  rewrite update_close by (cbn; lia).
  cbn. rewrite steady_length. f_equal; lia.
Qed.

Lemma steady_rate_reported_witness :
  updates (steady 0 20 (S (Z.to_nat (999 / 20)))) (new 0 JS.Undefined)
  = {| current := 0; last := 999 / 20 + 1;
       lastUpdated := 0 + 20 * (999 / 20 + 1); ctx := JS.Undefined |}.
Proof. apply (steady_rate_reported 0 20 JS.Undefined). lia. Defined.

(** X20. During the first second the counter displays "0fps". *)
Theorem first_second_displays_zero t0 c clock log :
  within_first_second t0 clock →
  draw (updates clock (new t0 c)) log
  = log ++ [Canvas Draw.Save;
            SetFont "12pt Arial";
            Canvas (Draw.SetFillStyle "#fff");
            SetTextBaseline "top";
            FillText "0fps" (JS.Num 5) (JS.Num 5);
            Fill;
            Canvas Draw.Restore].
Proof.
  intros Hin. rewrite (updates_open _ (new t0 c)) by done. reflexivity.
Qed.

Lemma first_second_displays_zero_witness :
  draw (updates [(16, 16); (33, 33)] (new 0 JS.Undefined)) []
  = [] ++ [Canvas Draw.Save;
           SetFont "12pt Arial";
           Canvas (Draw.SetFillStyle "#fff");
           SetTextBaseline "top";
           FillText "0fps" (JS.Num 5) (JS.Num 5);
           Fill;
           Canvas Draw.Restore].
Proof.
  apply (first_second_displays_zero 0 JS.Undefined [(16, 16); (33, 33)] []).
  unfold within_first_second. repeat constructor; simpl; lia.
Defined.

Lemma string_length_app (s t : string) :
  String.length (s +:+ t) = (String.length s + String.length t)%nat.
Proof. induction s as [| a s IH]; simpl; [done | by f_equal]. Qed.

Lemma string_app_cancel_r (s1 s2 t : string) : s1 +:+ t = s2 +:+ t → s1 = s2.
Proof.
  revert s2. induction s1 as [| a s1 IH]; intros [| b s2] E.
  - done.
  - apply (f_equal String.length) in E.
    rewrite !string_length_app in E. simpl in E. lia.
  - apply (f_equal String.length) in E.
    rewrite !string_length_app in E. simpl in E. lia.
  - simpl in E. injection E as -> E. f_equal. by apply IH.
Qed.

(** X21. The text displayed determines the count: two counters for which
    [draw] makes the same calls have the same [last]. *)
Theorem displayed_text_determines_last f f' log :
  draw f log = draw f' log → last f = last f'.
Proof.
  unfold draw. intros E%app_inv_head. injection E as E.
  unfold label in E. apply string_app_cancel_r in E.
  by apply (inj pretty) in E.
Qed.

Lemma displayed_text_determines_last_witness :
  last (update 1000 1000 (new 0 JS.Undefined))
  = last (update 2000 2001 (new 7 (JS.Ref 1))).
Proof.
  apply (displayed_text_determines_last
           (update 1000 1000 (new 0 JS.Undefined))
           (update 2000 2001 (new 7 (JS.Ref 1))) []).
  reflexivity.
Defined.

End WindowFacts.

(** ** The drawing state around the library's drawing *)

Section BracketFacts.
Import Hud Host2D.
Context {style surface : Type}.
Context (restyle : call → style → style).
Context (paint : call → style → surface → surface).
Implicit Types (s : context style surface) (cs : list call).

Lemma execs_app cs cs' s :
  execs restyle paint (cs ++ cs') s
  = execs restyle paint cs' (execs restyle paint cs s).
Proof. unfold execs. apply fold_left_app. Qed.

Lemma execs_cons c cs s :
  execs restyle paint (c :: cs) s
  = execs restyle paint cs (exec restyle paint s c).
Proof. reflexivity. Qed.

(** Calls other than [save] and [restore] leave the stack alone. *)
Lemma execs_keeps_stack cs s :
  Forall (λ c, c ≠ Canvas Draw.Save ∧ c ≠ Canvas Draw.Restore) cs →
  saved (execs restyle paint cs s) = saved s.
Proof.
  intros Hcs. revert s.
  induction Hcs as [| c cs [Hsave Hrestore] _ IH]; intros s; [done |].
  rewrite execs_cons, IH. destruct c as [[] | | | |]; done.
Qed.

(** Calls made between a [save] and the matching [restore], none of them a
    [save] or a [restore], are undone as far as the drawing state goes. *)
Lemma bracket_restores cs s :
  Forall (λ c, c ≠ Canvas Draw.Save ∧ c ≠ Canvas Draw.Restore) cs →
  drawing (execs restyle paint
             ([Canvas Draw.Save] ++ cs ++ [Canvas Draw.Restore]) s)
  = drawing s
  ∧ saved (execs restyle paint
             ([Canvas Draw.Save] ++ cs ++ [Canvas Draw.Restore]) s)
    = saved s.
Proof.
  intros Hcs. cbn [app]. rewrite execs_cons, execs_app.
  pose proof (execs_keeps_stack cs (exec restyle paint s (Canvas Draw.Save)) Hcs)
    as Hs.
  cbn [exec saved] in Hs. unfold execs at 1 3. cbn [fold_left exec].
  by rewrite Hs.
Qed.

(** X22. [drawBackground] leaves the drawing state of the context (its fill
    style among it) and the stack of saved states as it found them, however
    the host carries out the calls other than [save] and [restore]. *)
Theorem drawBackground_keeps_drawing_state color cv s :
  drawing (execs restyle paint
             (map Canvas (Draw.ctx (Draw.drawBackground color cv))) s)
  = drawing (execs restyle paint (map Canvas (Draw.ctx cv)) s)
  ∧ saved (execs restyle paint
             (map Canvas (Draw.ctx (Draw.drawBackground color cv))) s)
    = saved (execs restyle paint (map Canvas (Draw.ctx cv)) s).
Proof.
  unfold Draw.drawBackground, Draw.call. cbn [Draw.ctx Draw.width Draw.height].
  rewrite <- !app_assoc, map_app, execs_app. cbn [app map].
  apply (bracket_restores
           [Canvas (Draw.SetFillStyle color);
            Canvas (Draw.FillRect (JS.Num 0) (JS.Num 0)
                      (Draw.width cv) (Draw.height cv))]).
  repeat constructor; discriminate.
Qed.

(** X23. [FPSCounter.prototype.draw] leaves the drawing state of the context
    (font, fill style and text baseline among it) and the stack of saved
    states as it found them. *)
Theorem fps_draw_keeps_drawing_state f log s :
  drawing (execs restyle paint (draw f log) s)
  = drawing (execs restyle paint log s)
  ∧ saved (execs restyle paint (draw f log) s)
    = saved (execs restyle paint log s).
Proof.
  unfold draw. rewrite execs_app.
  apply (bracket_restores
           [SetFont "12pt Arial";
            Canvas (Draw.SetFillStyle "#fff");
            SetTextBaseline "top";
            FillText (label (FPS.last f)) (JS.Num 5) (JS.Num 5);
            Fill]).
  repeat constructor; discriminate.
Qed.

End BracketFacts.

(** ** Animate: hosts without a scheduler, and drivers started again *)

Section DriverFacts.
Import Loop.
Context {G : Type} (loop : G → G).
Implicit Types (w : World G) (m n : nat).

(** X24. On a host that defines none of the five scheduling functions,
    [Animate] calls [loop] once and then throws a [TypeError]; nothing is
    registered, so no later frame calls [loop] again. *)
Theorem no_scheduler_runs_once w m :
  raf (window w) = false → queue w = [] →
  Animate loop w
  = TypeError {| window := window w; queue := []; game := loop (game w) |}
  ∧ ticks loop (S m) w
    = {| window := window w; queue := []; game := loop (game w) |}.
Proof.
  intros Hraf Hq. unfold ticks, Animate.
  rewrite run_throws by done. rewrite Hq. split; [done |]. cbn [state].
  induction m as [| m IH]; [done |]. by rewrite Nat.iter_succ, IH.
Qed.

Lemma invoke_all win q q0 g :
  raf win = true →
  fold_left (λ w cb, invoke loop cb w) q
    {| window := win; queue := q0; game := g |}
  = {| window := win; queue := q0 ++ q;
       game := Nat.iter (length q) loop g |}.
Proof.
  intros Hraf. revert q0 g. induction q as [| [] q IH]; intros q0 g.
  - cbn. by rewrite app_nil_r.
  - cbn [fold_left invoke]. rewrite run_registers by done.
    cbn [state window queue game]. rewrite IH, <- app_assoc.
    cbn [app length]. by rewrite Nat.iter_succ_r.
Qed.

(** X25. A frame calls [loop] once for each registration that is pending and
    leaves as many registrations pending as it found. *)
Theorem frame_runs_each_registration w :
  raf (window w) = true →
  frame loop w
  = {| window := window w; queue := queue w;
       game := Nat.iter (length (queue w)) loop (game w) |}.
Proof. intros Hraf. unfold frame. by rewrite invoke_all. Qed.

Lemma starts_pending n w :
  raf (window w) = true →
  Nat.iter n (λ w, state (Animate loop w)) w
  = {| window := window w; queue := queue w ++ replicate n Run;
       game := Nat.iter n loop (game w) |}.
Proof.
  intros Hraf. induction n as [| n IH].
  - cbn. rewrite app_nil_r. by destruct w.
  - rewrite !Nat.iter_succ, IH. unfold Animate.
    rewrite run_registers by done. cbn [state window queue game].
    rewrite <- app_assoc. do 2 f_equal.
    change [Run] with (replicate 1 Run).
    rewrite <- replicate_add. f_equal. lia.
Qed.

Lemma frames_pending_many n m w :
  raf (window w) = true → length (queue w) = n →
  Nat.iter m (frame loop) w
  = {| window := window w; queue := queue w;
       game := Nat.iter (m * n) loop (game w) |}.
Proof.
  intros Hraf Hn. induction m as [| m IH].
  - cbn. by destruct w.
  - rewrite Nat.iter_succ, IH. unfold frame. cbn [window queue game].
    rewrite invoke_all by done.
    cbn [app]. rewrite Hn, <- Nat.iter_add. done.
Qed.

(** X26. [Animate] does not guard against a second start: after [n] calls
    of [Animate] with the same [loop], [n] registrations are pending, and
    after [m] further frames [loop] has run [n * (m + 1)] times. *)
Theorem started_again_runs_faster n m w :
  raf (window w) = true → queue w = [] →
  Nat.iter m (frame loop) (Nat.iter n (λ w, state (Animate loop w)) w)
  = {| window := window w; queue := replicate n Run;
       game := Nat.iter (n * S m) loop (game w) |}.
Proof.
  intros Hraf Hq. rewrite starts_pending by done. rewrite Hq. cbn [app].
  rewrite (frames_pending_many n) by (cbn; by rewrite ?length_replicate).
  cbn [window queue game]. rewrite <- Nat.iter_add. do 2 f_equal. lia.
Qed.

End DriverFacts.

Section DriverExamples.
Import Loop.

Lemma no_scheduler_runs_once_witness :
  Animate increment (mkWorld (mkWindow false false false false false) [] 0)
  = TypeError (mkWorld (mkWindow false false false false false) [] (increment 0))
  ∧ ticks increment (S 60) (mkWorld (mkWindow false false false false false) [] 0)
    = mkWorld (mkWindow false false false false false) [] (increment 0).
Proof.
  apply (no_scheduler_runs_once increment
           (mkWorld (mkWindow false false false false false) [] 0) 60);
    reflexivity.
Defined.

Lemma frame_runs_each_registration_witness :
  frame increment (mkWorld (mkWindow true false false false false) [Run; Run] 0)
  = mkWorld (mkWindow true false false false false) [Run; Run]
      (Nat.iter (length [Run; Run]) increment 0).
Proof.
  apply (frame_runs_each_registration increment
           (mkWorld (mkWindow true false false false false) [Run; Run] 0)).
  reflexivity.
Defined.

Lemma started_again_runs_faster_witness :
  Nat.iter 3 (frame increment)
    (Nat.iter 2 (λ w, state (Animate increment w))
       (mkWorld (mkWindow true false false false false) [] 0))
  = mkWorld (mkWindow true false false false false) (replicate 2 Run)
      (Nat.iter (2 * 4) increment 0).
Proof.
  apply (started_again_runs_faster increment 2 3
           (mkWorld (mkWindow true false false false false) [] 0));
    reflexivity.
Defined.

End DriverExamples.
